(** * Ordered concurrent map with failure isolation

    A shallow embedding of the two worker-pool samples of the repository,
    [Python/Threading/sample.py] and [Python/MultiProcessing/sample.py],
    and the properties of their result tables.

    The workers share no state with the caller, so the only thing the
    scheduler decides that the caller can see is the order in which
    [as_completed] hands the futures back.  That order is an explicit
    argument of the embedded functions (a list of futures); the theorems
    quantify over every such order. *)

From Stdlib Require Import ZArith Ascii String List Lia.
From stdpp Require Import base option list gmap strings pretty.

Local Open Scope string_scope.
Local Open Scope list_scope.
Local Open Scope Z_scope.

(** ** Python values and exceptions *)

Module Py.

(** The values the samples handle: [None] and integers. *)
Inductive pyval : Type :=
| PyNone
| PyInt (z : Z).

#[global] Instance pyval_eq_dec : EqDecision pyval.
Proof. solve_decision. Defined.

(** The exception classes that occur, with the part of the builtin
    hierarchy the [except] clauses look at.  [KeyboardInterrupt] and
    [SystemExit] derive from [BaseException] only. *)
Inductive exc_class : Type :=
| ValueError
| TypeError
| OverflowError
| RuntimeError
| TimeoutError
| UnboundLocalError
| KeyError
| IndexError
| KeyboardInterrupt
| SystemExit.

#[global] Instance exc_class_eq_dec : EqDecision exc_class.
Proof. solve_decision. Defined.

Record pyexc : Type := mk_exc { exc_cls : exc_class; exc_msg : string }.

#[global] Instance pyexc_eq_dec : EqDecision pyexc.
Proof. solve_decision. Defined.

(** [isinstance(e, Exception)] *)
Definition is_Exception (e : pyexc) : bool :=
  match exc_cls e with
  | KeyboardInterrupt | SystemExit => false
  | _ => true
  end.

(** [isinstance(e, TimeoutError)]; since Python 3.11
    [concurrent.futures.TimeoutError] is the builtin class. *)
Definition is_TimeoutError (e : pyexc) : bool :=
  match exc_cls e with
  | TimeoutError => true
  | _ => false
  end.

(** [str(e)] *)
Definition str_exc (e : pyexc) : string := exc_msg e.

(** Outcome of an evaluation: a value or a raised exception. *)
Inductive res (A : Type) : Type :=
| Ok (a : A)
| Raised (e : pyexc).
Arguments Ok {A} a.
Arguments Raised {A} e.

Definition type_name (v : pyval) : string :=
  match v with
  | PyNone => "NoneType"
  | PyInt _ => "int"
  end.

Definition unsupported (op : string) (a b : pyval) : pyexc :=
  mk_exc TypeError
    ("unsupported operand type(s) for " +:+ op +:+ ": '" +:+ type_name a
       +:+ "' and '" +:+ type_name b +:+ "'").

(** [a - b] *)
Definition py_sub (a b : pyval) : res pyval :=
  match a, b with
  | PyInt x, PyInt y => Ok (PyInt (x - y))
  | _, _ => Raised (unsupported "-" a b)
  end.

(** [a * b] *)
Definition py_mul (a b : pyval) : res pyval :=
  match a, b with
  | PyInt x, PyInt y => Ok (PyInt (x * y))
  | _, _ => Raised (unsupported "*" a b)
  end.

End Py.
Import Py.

(** ** Code that runs inside a worker

    A unit of work yields the seconds it spent asleep together with its
    outcome. *)

Module Worker.

Definition task (A : Type) : Type := (Z * res A)%type.

Definition elapsed {A} (t : task A) : Z := fst t.
Definition outcome {A} (t : task A) : res A := snd t.

Definition ret {A} (a : A) : task A := (0, Ok a).
Definition raise {A} (e : pyexc) : task A := (0, Raised e).

Definition lift {A} (r : res A) : task A := (0, r).

Definition bind {A B} (m : task A) (k : A -> task B) : task B :=
  match m with
  | (t, Ok a) => let '(t', r) := k a in (t + t', r)
  | (t, Raised e) => (t, Raised e)
  end.

(** The largest whole number of seconds CPython's clock holds: it
    counts nanoseconds in a signed 64-bit integer, [(2^63 - 1) / 10^9]. *)
Definition sleep_max : Z := 9223372036.

(** [time.sleep(secs)].  The duration is first converted to the 64-bit
    nanosecond clock, which raises [OverflowError] when it does not fit,
    in either direction; then a negative duration is refused with
    [ValueError]; otherwise the thread is suspended for [secs] seconds
    and the call returns [None]. *)
Definition time_sleep (secs : pyval) : task unit :=
  match secs with
  | PyInt s =>
      if (s <? - sleep_max) || (sleep_max <? s)
      then raise (mk_exc OverflowError
                    "timestamp too large to convert to C _PyTime_t")
      else if s <? 0
      then raise (mk_exc ValueError "sleep length must be non-negative")
      else (s, Ok tt)
  | PyNone =>
      raise (mk_exc TypeError
               "'NoneType' object cannot be interpreted as an integer")
  end.

End Worker.

Notation "'wlet' x := m 'in' k" := (Worker.bind m (fun x => k))
  (at level 10, x binder, k at level 200, only parsing).

(** ** The caller's side

    The calling thread runs in a state-and-exception monad.  Its state
    holds the futures of the pool (a future is named by its position in
    that list) and the chronological log of what the call did. *)

Inductive pool_kind : Type := ThreadPool | ProcessPool.

Inductive Future : Type :=
| Pending (work : Worker.task pyval)
| Finished (work : Worker.task pyval).

Definition work_of (f : Future) : Worker.task pyval :=
  match f with Pending w | Finished w => w end.

Definition finish (f : Future) : Future := Finished (work_of f).

Inductive event : Type :=
| PoolCreated (kind : pool_kind) (max_workers : nat)
| Submitted (future : nat) (arg : pyval)
| PbarCreated (total : nat) (desc : string)
| Printed (line : string)
| SlotWritten (idx : nat) (v : pyval)
| PbarUpdated (n : nat)
| PbarClosed
| PoolShutdown.

#[global] Instance pool_kind_eq_dec : EqDecision pool_kind.
Proof. solve_decision. Defined.
#[global] Instance event_eq_dec : EqDecision event.
Proof. solve_decision. Defined.

Record world : Type := mk_world { trace : list event; futures : list Future }.

Definition M (A : Type) : Type := world -> res A * world.

Definition ret {A} (a : A) : M A := fun w => (Ok a, w).
Definition raise {A} (e : pyexc) : M A := fun w => (Raised e, w).

Definition bind {A B} (m : M A) (k : A -> M B) : M B :=
  fun w =>
    match m w with
    | (Ok a, w') => k a w'
    | (Raised e, w') => (Raised e, w')
    end.

Notation "'mlet' x := m 'in' k" := (bind m (fun x => k))
  (at level 10, x binder, k at level 200, only parsing).

Definition emit (ev : event) : M unit :=
  fun w => (Ok tt, mk_world (trace w ++ [ev]) (futures w)).

(** [try: m  except C1: h1  except C2: h2 ...]: the first clause whose
    class test accepts the exception handles it; with none, it goes on. *)
Definition handler (A : Type) : Type := ((pyexc -> bool) * (pyexc -> M A))%type.

Fixpoint dispatch {A} (hs : list (handler A)) (e : pyexc) : M A :=
  match hs with
  | [] => raise e
  | (accepts, h) :: hs' => if accepts e then h e else dispatch hs' e
  end.

Definition try_except {A} (m : M A) (hs : list (handler A)) : M A :=
  fun w =>
    match m w with
    | (Ok a, w') => (Ok a, w')
    | (Raised e, w') => dispatch hs e w'
    end.

(** [try: m  finally: fin] *)
Definition try_finally {A} (m : M A) (fin : M unit) : M A :=
  fun w =>
    let '(r, w') := m w in
    match fin w' with
    | (Ok _, w'') => (r, w'')
    | (Raised e, w'') => (Raised e, w'')
    end.

(** [print(line)] *)
Definition print (line : string) : M unit := emit (Printed line).

(** [d[k]] on the dict from futures to indices *)
Definition dict_getitem (d : gmap nat nat) (k : nat) : M nat :=
  match d !! k with
  | Some v => ret v
  | None => raise (mk_exc KeyError (pretty k))
  end.

(** [l[idx] = v]; Python raises [IndexError] out of range *)
Definition list_setitem (l : list pyval) (idx : nat) (v : pyval) : M (list pyval) :=
  if decide (idx < length l)%nat
  then mlet _ := emit (SlotWritten idx v) in ret (<[idx := v]> l)
  else raise (mk_exc IndexError "list assignment index out of range").

(** Reading a local variable that may not have been assigned yet. *)
Definition load_local (name : string) (v : option pyval) : M pyval :=
  match v with
  | Some x => ret x
  | None =>
      raise (mk_exc UnboundLocalError
               ("cannot access local variable '" +:+ name
                  +:+ "' where it is not associated with a value"))
  end.

(** *** concurrent.futures *)

(** [ex.submit(fn, arg)]: a new pending future whose work is [fn(arg)]. *)
Definition submit (fn : pyval -> Worker.task pyval) (arg : pyval) : M nat :=
  fun w =>
    let future := length (futures w) in
    (Ok future,
     mk_world (trace w ++ [Submitted future arg])
              (futures w ++ [Pending (fn arg)])).

(** A worker finishes the work of a future. *)
Definition worker_finishes (future : nat) : M unit :=
  fun w => (Ok tt, mk_world (trace w) (alter finish future (futures w))).

(** [Executor.shutdown(wait=True)], what leaving the [with] block calls:
    it returns once every submitted future has finished. *)
Definition shutdown : M unit :=
  fun w => (Ok tt, mk_world (trace w ++ [PoolShutdown]) (finish <$> futures w)).

(** [with Executor(max_workers=n) as ex: body] *)
Definition with_executor {A} (kind : pool_kind) (max_workers : nat)
    (body : M A) : M A :=
  mlet _ := emit (PoolCreated kind max_workers) in
  try_finally body shutdown.

(** [future.result(timeout)].  A finished future hands over its outcome
    at once, whatever the timeout.  A pending one is waited for: the wait
    succeeds when the work's duration fits in the timeout (always, with
    no timeout) and raises [TimeoutError] otherwise. *)
Definition Future_result (future : nat) (timeout : option Z) : M pyval :=
  fun w =>
    match futures w !! future with
    | Some (Finished work) => (Worker.outcome work, w)
    | Some (Pending work) =>
        let in_time :=
          match timeout with
          | Some t => Worker.elapsed work <=? t
          | None => true
          end in
        if in_time
        then (Worker.outcome work,
              mk_world (trace w) (alter finish future (futures w)))
        else (Raised (mk_exc TimeoutError ""), w)
    | None => (Raised (mk_exc RuntimeError "no such future"), w)
    end.

(** [for future in as_completed(...)]: [order] is the order in which the
    workers finish; each future is handed to the body once its worker
    has finished. *)
Fixpoint for_as_completed {S} (order : list nat) (body : nat -> S -> M S)
    (s : S) : M S :=
  match order with
  | [] => ret s
  | future :: rest =>
      mlet _ := worker_finishes future in
      mlet s' := body future s in
      for_as_completed rest body s'
  end.

(** *** tqdm *)

Definition tqdm (total : nat) (desc : string) : M unit :=
  emit (PbarCreated total desc).
Definition pbar_update (n : nat) : M unit := emit (PbarUpdated n).
Definition pbar_close : M unit := emit PbarClosed.

(** *** pandas

    [pd.DataFrame({"input": values, "output": results})]: the two columns,
    which must have the same length.  Cells are kept as the Python values
    they were built from; the dtype pandas infers for a column, under
    which a [None] among numbers is shown as [NaN], is not modelled. *)
Record DataFrame : Type := mk_frame { input : list pyval; output : list pyval }.

#[global] Instance DataFrame_eq_dec : EqDecision DataFrame.
Proof. solve_decision. Defined.

Definition pd_DataFrame (values results : list pyval) : M DataFrame :=
  if decide (length values = length results)
  then ret (mk_frame values results)
  else raise (mk_exc ValueError "All arrays must be of the same length").

Definition rows (df : DataFrame) : list (pyval * pyval) :=
  zip (input df) (output df).

(** [enumerate(values)] *)
Definition enumerate (values : list pyval) : list (nat * pyval) :=
  zip (seq 0 (length values)) values.

(** [{ex.submit(fn, val): idx for idx, val in enumerate(values)}] *)
Fixpoint submit_each (fn : pyval -> Worker.task pyval)
    (items : list (nat * pyval)) (d : gmap nat nat) : M (gmap nat nat) :=
  match items with
  | [] => ret d
  | (idx, val) :: rest =>
      mlet future := submit fn val in
      submit_each fn rest (<[future := idx]> d)
  end.

(** A call starts with no pool and an empty log. *)
Definition fresh : world := mk_world [] [].

(** ** Python/Threading/sample.py *)

Module Threading.

(** [slow_square(x)]:
<<
    sleep_time = 6 - x
    time.sleep(sleep_time)
    return x * x
>> *)
Definition slow_square (x : pyval) : Worker.task pyval :=
  wlet sleep_time := Worker.lift (py_sub (PyInt 6) x) in
  wlet _ := Worker.time_sleep sleep_time in
  Worker.lift (py_mul x x).

(** The locals the loop carries from one iteration to the next: the
    list [results], and [result], unbound until first assigned. *)
Record locals : Type := mk_locals { results : list pyval; result : option pyval }.

Section transformation.

(** The function submitted to the pool; the sample submits [slow_square]. *)
Variable fn : pyval -> Worker.task pyval.

(** The body of [for future in as_completed(future_to_index)]. *)
Definition loop_body (future_to_index : gmap nat nat) (time_limit : Z)
    (future : nat) (loc : locals) : M locals :=
  mlet idx := dict_getitem future_to_index future in
  mlet result :=
    try_except
      (mlet r := Future_result future (Some time_limit) in ret (Some r))
      [ (is_TimeoutError, fun _ =>
           mlet _ := print ("Task " +:+ pretty idx +:+ " failed: TIMEOUT (>"
                              +:+ pretty time_limit +:+ "s)") in
           ret (result loc));
        (is_Exception, fun e =>
           mlet _ := print ("Task " +:+ pretty idx +:+ " failed: " +:+ str_exc e) in
           ret (Some PyNone)) ] in
  mlet v := load_local "result" result in
  mlet results := list_setitem (results loc) idx v in
  mlet _ := pbar_update 1 in
  ret (mk_locals results result).

Definition run_in_threads_with (values : list pyval) (time_limit : Z)
    (order : list nat) : M DataFrame :=
  let results := replicate (length values) PyNone in
  mlet loc :=
    with_executor ThreadPool 5
      (mlet future_to_index := submit_each fn (enumerate values) ∅ in
       mlet _ := tqdm (length values) "Processing" in
       try_finally
         (for_as_completed order (loop_body future_to_index time_limit)
            (mk_locals results None))
         pbar_close) in
  pd_DataFrame values (Threading.results loc).

End transformation.

(** [run_in_threads(values, time_limit)], the workers finishing in [order]. *)
Definition run_in_threads : list pyval -> Z -> list nat -> M DataFrame :=
  run_in_threads_with slow_square.

End Threading.

(** ** Python/MultiProcessing/sample.py *)

Module MultiProcessing.

(** [slow_square(x)]:
<<
    sleep_time = 6 - x  # different sleep times so tasks finish out of order
    time.sleep(sleep_time)
    return x * x
>> *)
Definition slow_square (x : pyval) : Worker.task pyval :=
  wlet sleep_time := Worker.lift (py_sub (PyInt 6) x) in
  wlet _ := Worker.time_sleep sleep_time in
  Worker.lift (py_mul x x).

Section transformation.

Variable fn : pyval -> Worker.task pyval.

(** The body of [for future in as_completed(future_to_index)]; [result]
    is assigned on both branches of the [try] before it is read. *)
Definition loop_body (future_to_index : gmap nat nat) (future : nat)
    (results : list pyval) : M (list pyval) :=
  mlet idx := dict_getitem future_to_index future in
  mlet result :=
    try_except
      (Future_result future None)
      [ (is_Exception, fun e =>
           mlet _ := print ("Task " +:+ pretty idx +:+ " failed: " +:+ str_exc e) in
           ret PyNone) ] in
  mlet results := list_setitem results idx result in
  mlet _ := pbar_update 1 in
  ret results.

Definition run_in_processes_with (values : list pyval) (order : list nat)
    : M DataFrame :=
  let results := replicate (length values) PyNone in
  mlet results :=
    with_executor ProcessPool 5
      (mlet future_to_index := submit_each fn (enumerate values) ∅ in
       mlet _ := tqdm (length values) "Processing (process pool)" in
       try_finally
         (for_as_completed order (loop_body future_to_index) results)
         pbar_close) in
  pd_DataFrame values results.

End transformation.

(** [run_in_processes(values)], the workers finishing in [order]. *)
Definition run_in_processes : list pyval -> list nat -> M DataFrame :=
  run_in_processes_with slow_square.

End MultiProcessing.

(** ** What the result table should hold *)

(** What a slot receives for an outcome: the value, or [None]. *)
Definition marker (r : res pyval) : pyval :=
  match r with
  | Ok v => v
  | Raised _ => PyNone
  end.

Section expectations.

Variable fn : pyval -> Worker.task pyval.

Definition slot_value (values : list pyval) (i : nat) : pyval :=
  match values !! i with
  | Some v => marker (Worker.outcome (fn v))
  | None => PyNone
  end.

Definition expected (values : list pyval) : list pyval :=
  (fun v => marker (Worker.outcome (fn v))) <$> values.

(** The report the [except Exception] clause prints. *)
Definition failure_line (idx : nat) (e : pyexc) : string :=
  "Task " +:+ pretty idx +:+ " failed: " +:+ str_exc e.

(** The report the [except TimeoutError] clause prints. *)
Definition timeout_line (idx : nat) (time_limit : Z) : string :=
  "Task " +:+ pretty idx +:+ " failed: TIMEOUT (>" +:+ pretty time_limit +:+ "s)".

(** What one iteration logs when the per-task handler deals with the
    outcome. *)
Definition task_events (idx : nat) (r : res pyval) : list event :=
  match r with
  | Ok v => [SlotWritten idx v; PbarUpdated 1]
  | Raised e => [Printed (failure_line idx e); SlotWritten idx PyNone; PbarUpdated 1]
  end.

Definition loop_events (values : list pyval) (order : list nat) : list event :=
  order ≫= (fun i =>
    match values !! i with
    | Some v => task_events i (Worker.outcome (fn v))
    | None => []
    end).

Definition submit_events (first : nat) (values : list pyval) : list event :=
  zip_with Submitted (seq first (length values)) values.

(** [results] after the slots named in [order] were assigned. *)
Definition fill (values : list pyval) (order : list nat) (results : list pyval)
    : list pyval :=
  foldl (fun r i => <[i := slot_value values i]> r) results order.

(** [result] after the loop: what the last iteration assigned. *)
Definition last_result (values : list pyval) (order : list nat)
    (result : option pyval) : option pyval :=
  foldl (fun _ i => Some (slot_value values i)) result order.

Definition finish_each (order : list nat) (fs : list Future) : list Future :=
  foldl (fun fs i => alter finish i fs) fs order.

(** The dict the comprehension builds over [d]: future [i] maps to
    index [i], for the [n] futures from [first] on. *)
Definition index_dict (first n : nat) (d : gmap nat nat) : gmap nat nat :=
  foldl (fun d i => <[i := i]> d) d (seq first n).

(** The log of a call whose loop ran as [loop]. *)
Definition call_events (kind : pool_kind) (desc : string) (values : list pyval)
    (loop : list event) : list event :=
  [PoolCreated kind 5] ++ submit_events 0 values
    ++ [PbarCreated (length values) desc] ++ loop ++ [PbarClosed; PoolShutdown].

End expectations.

(** The per-task handler of [run_in_processes] deals with the outcome. *)
Definition caught_in_process (r : res pyval) : bool :=
  match r with
  | Ok _ => true
  | Raised e => is_Exception e
  end.

(** The per-task handlers of [run_in_threads] record [None] for it. *)
Definition caught_in_thread (r : res pyval) : bool :=
  match r with
  | Ok _ => true
  | Raised e => is_Exception e && negb (is_TimeoutError e)
  end.

(** The slots of [tr] written, in order. *)
Definition writes (tr : list event) : list nat :=
  omap (fun ev => match ev with SlotWritten i _ => Some i | _ => None end) tr.

Definition is_finished (f : Future) : bool :=
  match f with Finished _ => true | Pending _ => false end.

(** [order] names every future of an [n]-element input exactly once. *)
Definition completion_order (n : nat) (order : list nat) : Prop :=
  order ≡ₚ seq 0 n.

#[global] Instance completion_order_dec n order : Decision (completion_order n order).
Proof. unfold completion_order. apply _. Defined.

(** Either sample, chosen by the kind of pool it uses.  [run_in_processes]
    takes no time limit. *)
Definition run_with (kind : pool_kind) (fn : pyval -> Worker.task pyval)
    (values : list pyval) (time_limit : Z) (order : list nat) : M DataFrame :=
  match kind with
  | ThreadPool => Threading.run_in_threads_with fn values time_limit order
  | ProcessPool => MultiProcessing.run_in_processes_with fn values order
  end.

Definition pool_desc (kind : pool_kind) : string :=
  match kind with
  | ThreadPool => "Processing"
  | ProcessPool => "Processing (process pool)"
  end.

(** The per-task handlers of the sample record [None] for the outcome. *)
Definition handled (kind : pool_kind) (r : res pyval) : bool :=
  match kind with
  | ThreadPool => caught_in_thread r
  | ProcessPool => caught_in_process r
  end.


(** [slow_square] made to raise [e] on the input [bad]. *)
Definition failing_on (bad : Z) (e : pyexc) (x : pyval) : Worker.task pyval :=
  if decide (x = PyInt bad) then Worker.raise e else Threading.slow_square x.


Definition ints (l : list Z) : list pyval := PyInt <$> l.

(** Events that release a resource. *)
Definition closing (ev : event) : bool :=
  match ev with
  | PbarClosed | PoolShutdown => true
  | _ => false
  end.

(** Events of the pool itself. *)
Definition pool_event (ev : event) : bool :=
  match ev with
  | PoolCreated _ _ | Submitted _ _ | PoolShutdown => true
  | _ => false
  end.

Definition printed (tr : list event) : list string :=
  omap (fun ev => match ev with Printed l => Some l | _ => None end) tr.

Fixpoint last_ascii (s : string) : option Ascii.ascii :=
  match s with
  | EmptyString => None
  | String c EmptyString => Some c
  | String _ rest => last_ascii rest
  end.

(** Either sample as the repository has it, with [slow_square]. *)
Definition run_sample (kind : pool_kind) (values : list pyval) (time_limit : Z)
    (order : list nat) : M DataFrame :=
  match kind with
  | ThreadPool => Threading.run_in_threads values time_limit order
  | ProcessPool => MultiProcessing.run_in_processes values order
  end.

(** [w'] continues the log of [w] with events that release nothing. *)
Definition extends (w w' : world) : Prop :=
  exists evs, trace w' = trace w ++ evs /\ Forall (fun ev => closing ev = false) evs.

(** ** Further notions on calls and their logs *)

(** How far the progress bar has advanced. *)
Definition progress (tr : list event) : nat :=
  sum_list (omap (fun ev => match ev with PbarUpdated n => Some n | _ => None end) tr).



(** What reading the unassigned local [result] raises. *)
Definition unbound_result : pyexc :=
  mk_exc UnboundLocalError
    "cannot access local variable 'result' where it is not associated with a value".

(** The state in which the loop of a call starts: the pool created, every
    input submitted, the progress bar created. *)
Definition before_loop (kind : pool_kind) (fn : pyval -> Worker.task pyval)
    (values : list pyval) : world :=
  mk_world
    ([PoolCreated kind 5] ++ submit_events 0 values
       ++ [PbarCreated (length values) (pool_desc kind)])
    ((fun v => Pending (fn v)) <$> values).

(** Leaving the [finally] and the [with] block from the state [w]. *)
Definition after_loop (w : world) : world :=
  mk_world (trace w ++ [PbarClosed; PoolShutdown]) (finish <$> futures w).

(** *** One iteration read as a function of the locals alone

    What one iteration of the loop does to its locals and what it logs,
    once the future handed over is known to hold the outcome of the task
    of input [i].  A future that belongs to no input is missing from the
    dict. *)

Definition thread_step (fn : pyval -> Worker.task pyval) (values : list pyval)
    (time_limit : Z) (i : nat) (loc : Threading.locals)
    : res Threading.locals * list event :=
  match values !! i with
  | None => (Raised (mk_exc KeyError (pretty i)), [])
  | Some v =>
      match Worker.outcome (fn v) with
      | Ok x =>
          (Ok (Threading.mk_locals (<[i := x]> (Threading.results loc)) (Some x)),
           [SlotWritten i x; PbarUpdated 1])
      | Raised e =>
          if is_TimeoutError e then
            match Threading.result loc with
            | Some prev =>
                (Ok (Threading.mk_locals (<[i := prev]> (Threading.results loc))
                       (Some prev)),
                 [Printed (timeout_line i time_limit); SlotWritten i prev;
                  PbarUpdated 1])
            | None => (Raised unbound_result, [Printed (timeout_line i time_limit)])
            end
          else if is_Exception e then
            (Ok (Threading.mk_locals (<[i := PyNone]> (Threading.results loc))
                   (Some PyNone)),
             [Printed (failure_line i e); SlotWritten i PyNone; PbarUpdated 1])
          else (Raised e, [])
      end
  end.

Definition process_step (fn : pyval -> Worker.task pyval) (values : list pyval)
    (i : nat) (results : list pyval) : res (list pyval) * list event :=
  match values !! i with
  | None => (Raised (mk_exc KeyError (pretty i)), [])
  | Some v =>
      match Worker.outcome (fn v) with
      | Ok x => (Ok (<[i := x]> results), [SlotWritten i x; PbarUpdated 1])
      | Raised e =>
          if is_Exception e then
            (Ok (<[i := PyNone]> results),
             [Printed (failure_line i e); SlotWritten i PyNone; PbarUpdated 1])
          else (Raised e, [])
      end
  end.

(** The iterations of a loop one after the other, up to the first that
    raises. *)
Fixpoint steps {S} (step : nat -> S -> res S * list event) (order : list nat)
    (s : S) : res S * list event :=
  match order with
  | [] => (Ok s, [])
  | i :: rest =>
      match step i s with
      | (Ok s', evs) => let '(r, evs') := steps step rest s' in (r, evs ++ evs')
      | (Raised e, evs) => (Raised e, evs)
      end
  end.

(** An iteration that goes through stores one result and advances the
    bar by one; one that raises does neither. *)
Definition step_accounts {S} (step : nat -> S -> res S * list event) : Prop :=
  forall i s,
    match step i s with
    | (Ok _, evs) => writes evs = [i] /\ progress evs = 1%nat
    | (Raised _, evs) => writes evs = [] /\ progress evs = 0%nat
    end.

(** What the loop of either sample collects: the list [results], or the
    exception that ends the loop, and what it logs. *)
Definition collected (kind : pool_kind) (fn : pyval -> Worker.task pyval)
    (values : list pyval) (time_limit : Z) (order : list nat)
    : res (list pyval) * list event :=
  match kind with
  | ThreadPool =>
      match steps (thread_step fn values time_limit) order
              (Threading.mk_locals (replicate (length values) PyNone) None) with
      | (Ok loc, evs) => (Ok (Threading.results loc), evs)
      | (Raised e, evs) => (Raised e, evs)
      end
  | ProcessPool =>
      steps (process_step fn values) order (replicate (length values) PyNone)
  end.

(** The inputs submitted, each with its future, in order. *)
Definition submissions (tr : list event) : list (nat * pyval) :=
  omap (fun ev => match ev with Submitted f a => Some (f, a) | _ => None end) tr.

(** Events an iteration of the loop logs. *)
Definition loop_event (ev : event) : bool :=
  match ev with
  | Printed _ | SlotWritten _ _ | PbarUpdated _ => true
  | _ => false
  end.

(** ** Lemmas on the runtime *)

Lemma finish_finish f : finish (finish f) = finish f.
Proof. by destruct f. Qed.

Lemma fmap_finish_alter (fs : list Future) i :
  finish <$> alter finish i fs = finish <$> fs.
Proof.
  revert i. induction fs as [|f fs IH]; intros [|i]; simpl; [done|done| |].
  - by rewrite finish_finish.
  - f_equal. apply IH.
Qed.

Lemma fmap_finish_each order (fs : list Future) :
  finish <$> finish_each order fs = finish <$> fs.
Proof.
  revert fs. induction order as [|i order IH]; intros fs; [done|].
  change (finish_each (i :: order) fs) with (finish_each order (alter finish i fs)).
  rewrite IH. apply fmap_finish_alter.
Qed.

Lemma work_of_alter_finish (fs : list Future) i :
  work_of <$> alter finish i fs = work_of <$> fs.
Proof.
  revert i. induction fs as [|f fs IH]; intros [|i]; simpl; [done|done| |].
  - by destruct f.
  - f_equal. apply IH.
Qed.

Lemma lookup_alter_finish (fs : list Future) i f :
  fs !! i = Some f -> alter finish i fs !! i = Some (Finished (work_of f)).
Proof.
  intros H. rewrite list_lookup_alter_eq, H. done.
Qed.

Lemma fill_cons fn values i order results :
  fill fn values (i :: order) results =
    fill fn values order (<[i := slot_value fn values i]> results).
Proof. reflexivity. Qed.

Lemma finish_each_cons i order fs :
  finish_each (i :: order) fs = finish_each order (alter finish i fs).
Proof. reflexivity. Qed.

Lemma length_fill fn values order results :
  length (fill fn values order results) = length results.
Proof.
  revert results. induction order as [|i order IH]; intros results; [done|].
  rewrite fill_cons, IH. apply length_insert.
Qed.

Lemma lookup_fill fn values order results i :
  (i < length results)%nat ->
  fill fn values order results !! i =
    if decide (i ∈ order) then Some (slot_value fn values i) else results !! i.
Proof.
  revert results. induction order as [|j order IH]; intros results Hi.
  - case_decide as H; [by apply elem_of_nil in H|done].
  - rewrite fill_cons, IH by (by rewrite length_insert).
    destruct (decide (i ∈ order)) as [Hin|Hin].
    + rewrite decide_True; [done|by right].
    + destruct (decide (j = i)) as [->|Hne].
      * rewrite decide_True by left. by apply list_lookup_insert_eq.
      * rewrite decide_False by (intros [?|?]%elem_of_cons; congruence).
        by apply list_lookup_insert_ne.
Qed.

Lemma fill_complete fn values order results :
  completion_order (length values) order ->
  length results = length values ->
  fill fn values order results = expected fn values.
Proof.
  intros Hperm Hlen. apply list_eq; intros i.
  destruct (decide (i < length values)%nat) as [Hi|Hi].
  - rewrite lookup_fill by lia.
    rewrite decide_True.
    + unfold expected, slot_value. rewrite list_lookup_fmap.
      destruct (lookup_lt_is_Some_2 values i Hi) as [v ->]. done.
    + rewrite Hperm. apply elem_of_seq. lia.
  - rewrite !lookup_ge_None_2; [done| |].
    + unfold expected. rewrite length_fmap. lia.
    + rewrite length_fill. lia.
Qed.

(** *** Submitting *)

Lemma lookup_index_dict n : forall first d i,
  index_dict first n d !! i =
    if decide (first <= i < first + n)%nat then Some i else d !! i.
Proof.
  induction n as [|n IH]; intros first d i.
  - rewrite decide_False by lia. done.
  - change (index_dict first (S n) d)
      with (index_dict (S first) n (<[first := first]> d)).
    rewrite IH.
    destruct (decide (first = i)) as [->|Hne].
    + rewrite lookup_insert_eq. repeat case_decide; (done || lia).
    + rewrite lookup_insert_ne by done. repeat case_decide; (done || lia).
Qed.

Lemma submit_each_run fn vs : forall first d w,
  length (futures w) = first ->
  submit_each fn (zip (seq first (length vs)) vs) d w =
    (Ok (index_dict first (length vs) d),
     mk_world (trace w ++ submit_events first vs)
              (futures w ++ ((fun v => Pending (fn v)) <$> vs))).
Proof.
  induction vs as [|v vs IH]; intros first d [tr fs] Hlen; simpl in *.
  - unfold ret, submit_events. simpl. by rewrite !app_nil_r.
  - unfold bind, submit. simpl. rewrite Hlen.
    rewrite IH by (simpl; rewrite length_app; simpl; lia).
    simpl. unfold submit_events. simpl.
    by rewrite <- !app_assoc.
Qed.

Lemma for_as_completed_cons {S} i order (body : nat -> S -> M S) s w :
  for_as_completed (i :: order) body s w =
    match body i s (mk_world (trace w) (alter finish i (futures w))) with
    | (Ok s', w') => for_as_completed order body s' w'
    | (Raised e, w') => (Raised e, w')
    end.
Proof. reflexivity. Qed.

(** *** One iteration and the whole loop, when the handlers deal with
    every outcome *)

Section loops.

Variable fn : pyval -> Worker.task pyval.
Variable values : list pyval.
Variable d : gmap nat nat.
Hypothesis d_index : forall i, (i < length values)%nat -> d !! i = Some i.

Lemma processes_body i v results w :
  values !! i = Some v ->
  futures w !! i = Some (Finished (fn v)) ->
  length results = length values ->
  caught_in_process (Worker.outcome (fn v)) = true ->
  MultiProcessing.loop_body d i results w =
    (Ok (<[i := marker (Worker.outcome (fn v))]> results),
     mk_world (trace w ++ task_events i (Worker.outcome (fn v))) (futures w)).
Proof.
  intros Hv Hf Hlen Hc. pose proof (lookup_lt_Some _ _ _ Hv) as Hi.
  destruct w as [tr fs]. simpl in *.
  unfold MultiProcessing.loop_body, bind, dict_getitem.
  rewrite d_index by done. unfold ret at 1.
  unfold try_except, Future_result. simpl. rewrite Hf.
  unfold list_setitem, bind, emit, pbar_update, ret, print, emit.
  destruct (Worker.outcome (fn v)) as [val|e]; simpl in *.
  - rewrite decide_True by lia. simpl. by rewrite <- app_assoc.
  - rewrite Hc. simpl. rewrite decide_True by lia. simpl.
    by rewrite <- !app_assoc.
Qed.

Lemma threads_body time_limit i v loc w :
  values !! i = Some v ->
  futures w !! i = Some (Finished (fn v)) ->
  length (Threading.results loc) = length values ->
  caught_in_thread (Worker.outcome (fn v)) = true ->
  Threading.loop_body d time_limit i loc w =
    (Ok (Threading.mk_locals
           (<[i := marker (Worker.outcome (fn v))]> (Threading.results loc))
           (Some (marker (Worker.outcome (fn v))))),
     mk_world (trace w ++ task_events i (Worker.outcome (fn v))) (futures w)).
Proof.
  intros Hv Hf Hlen Hc. pose proof (lookup_lt_Some _ _ _ Hv) as Hi.
  destruct w as [tr fs]. destruct loc as [results result]. simpl in *.
  unfold Threading.loop_body, bind, dict_getitem.
  rewrite d_index by done. unfold ret at 1.
  unfold try_except, bind, Future_result. simpl. rewrite Hf.
  unfold list_setitem, bind, emit, pbar_update, ret, print, emit, load_local.
  destruct (Worker.outcome (fn v)) as [val|e]; simpl in *.
  - rewrite decide_True by lia. simpl. by rewrite <- app_assoc.
  - apply andb_true_iff in Hc as [HE HT]. apply negb_true_iff in HT.
    rewrite HT, HE. simpl. rewrite decide_True by lia. simpl.
    by rewrite <- !app_assoc.
Qed.


Lemma future_of_value (fs : list Future) i v :
  work_of <$> fs = fn <$> values ->
  values !! i = Some v ->
  alter finish i fs !! i = Some (Finished (fn v)).
Proof.
  intros Hfs Hv.
  assert (work_of <$> fs !! i = Some (fn v)) as Hw.
  { rewrite <- list_lookup_fmap, Hfs, list_lookup_fmap, Hv. done. }
  destruct (fs !! i) as [f|] eqn:Hf; [|done].
  rewrite (lookup_alter_finish _ _ _ Hf). simpl in Hw. congruence.
Qed.

Lemma processes_loop : forall order results w,
  Forall (fun i => i < length values)%nat order ->
  length results = length values ->
  work_of <$> futures w = fn <$> values ->
  Forall (fun v => caught_in_process (Worker.outcome (fn v)) = true) values ->
  for_as_completed order (MultiProcessing.loop_body d) results w =
    (Ok (fill fn values order results),
     mk_world (trace w ++ loop_events fn values order)
              (finish_each order (futures w))).
Proof.
  induction order as [|i order IH]; intros results [tr fs] Hord Hlen Hfs Hc.
  - simpl. unfold ret, loop_events. simpl. by rewrite app_nil_r.
  - apply Forall_cons in Hord as [Hi Hord].
    destruct (lookup_lt_is_Some_2 values i Hi) as [v Hv].
    rewrite for_as_completed_cons.
    rewrite (processes_body i v); simpl;
      [|done|by apply future_of_value|done
       |by apply (proj1 (Forall_forall _ _) Hc), list_elem_of_lookup; eauto].
    rewrite IH; simpl;
      [|done|by rewrite length_insert|by rewrite work_of_alter_finish|done].
    unfold slot_value. rewrite Hv. by rewrite <- app_assoc.
Qed.

Lemma threads_loop time_limit : forall order loc w,
  Forall (fun i => i < length values)%nat order ->
  length (Threading.results loc) = length values ->
  work_of <$> futures w = fn <$> values ->
  Forall (fun v => caught_in_thread (Worker.outcome (fn v)) = true) values ->
  for_as_completed order (Threading.loop_body d time_limit) loc w =
    (Ok (Threading.mk_locals
           (fill fn values order (Threading.results loc))
           (last_result fn values order (Threading.result loc))),
     mk_world (trace w ++ loop_events fn values order)
              (finish_each order (futures w))).
Proof.
  induction order as [|i order IH]; intros [results result] [tr fs] Hord Hlen Hfs Hc.
  - simpl. unfold ret, loop_events. simpl. by rewrite app_nil_r.
  - apply Forall_cons in Hord as [Hi Hord].
    destruct (lookup_lt_is_Some_2 values i Hi) as [v Hv].
    rewrite for_as_completed_cons.
    rewrite (threads_body time_limit i v); simpl;
      [|done|by apply future_of_value|done
       |by apply (proj1 (Forall_forall _ _) Hc), list_elem_of_lookup; eauto].
    rewrite IH; simpl;
      [|done|by rewrite length_insert|by rewrite work_of_alter_finish|done].
    unfold last_result, slot_value. simpl. rewrite Hv. by rewrite <- app_assoc.
Qed.

End loops.

(** *** The whole call, when the handlers deal with every outcome *)

Section calls.

Variable fn : pyval -> Worker.task pyval.
Variable values : list pyval.
Variable order : list nat.
Hypothesis order_in_range : Forall (fun i => i < length values)%nat order.

Lemma index_dict_lookup i :
  (i < length values)%nat -> index_dict 0 (length values) ∅ !! i = Some i.
Proof. intros Hi. rewrite lookup_index_dict. by rewrite decide_True by lia. Qed.

Lemma futures_after :
  finish <$> finish_each order ([] ++ ((fun v => Pending (fn v)) <$> values)) =
    (fun v => Finished (fn v)) <$> values.
Proof. rewrite fmap_finish_each. simpl. by rewrite <- list_fmap_compose. Qed.

Lemma processes_run :
  Forall (fun v => caught_in_process (Worker.outcome (fn v)) = true) values ->
  MultiProcessing.run_in_processes_with fn values order fresh =
    (Ok (mk_frame values (fill fn values order (replicate (length values) PyNone))),
     mk_world
       (call_events ProcessPool "Processing (process pool)" values
          (loop_events fn values order))
       ((fun v => Finished (fn v)) <$> values)).
Proof.
  intros Hc.
  unfold MultiProcessing.run_in_processes_with, with_executor, enumerate.
  unfold bind at 1. unfold bind at 1. unfold emit at 1. simpl.
  unfold try_finally at 1. unfold bind at 1.
  rewrite submit_each_run by done. simpl.
  unfold bind at 1. unfold tqdm, emit at 1. simpl.
  unfold try_finally.
  rewrite (processes_loop fn values); simpl;
    [|apply index_dict_lookup|done|by rewrite length_replicate
     |by rewrite <- list_fmap_compose|done].
  unfold pd_DataFrame.
  rewrite decide_True by (by rewrite length_fill, length_replicate).
  unfold ret. f_equal. unfold call_events. f_equal.
  - simpl. by rewrite <- !app_assoc.
  - apply futures_after.
Qed.

Lemma threads_run time_limit :
  Forall (fun v => caught_in_thread (Worker.outcome (fn v)) = true) values ->
  Threading.run_in_threads_with fn values time_limit order fresh =
    (Ok (mk_frame values (fill fn values order (replicate (length values) PyNone))),
     mk_world
       (call_events ThreadPool "Processing" values (loop_events fn values order))
       ((fun v => Finished (fn v)) <$> values)).
Proof.
  intros Hc.
  unfold Threading.run_in_threads_with, with_executor, enumerate.
  unfold bind at 1. unfold bind at 1. unfold emit at 1. simpl.
  unfold try_finally at 1. unfold bind at 1.
  rewrite submit_each_run by done. simpl.
  unfold bind at 1. unfold tqdm, emit at 1. simpl.
  unfold try_finally.
  rewrite (threads_loop fn values); simpl;
    [|apply index_dict_lookup|done|by rewrite length_replicate
     |by rewrite <- list_fmap_compose|done].
  unfold pd_DataFrame.
  rewrite decide_True by (by rewrite length_fill, length_replicate).
  unfold ret. f_equal. unfold call_events. f_equal.
  - simpl. by rewrite <- !app_assoc.
  - apply futures_after.
Qed.

End calls.

(** Both samples at once. *)
Lemma sample_run kind fn values time_limit order :
  Forall (fun i => i < length values)%nat order ->
  Forall (fun v => handled kind (Worker.outcome (fn v)) = true) values ->
  run_with kind fn values time_limit order fresh =
    (Ok (mk_frame values (fill fn values order (replicate (length values) PyNone))),
     mk_world
       (call_events kind (pool_desc kind) values (loop_events fn values order))
       ((fun v => Finished (fn v)) <$> values)).
Proof.
  intros Hord Hc. destruct kind; simpl.
  - by apply threads_run.
  - by apply processes_run.
Qed.

Lemma completion_order_in_range n order :
  completion_order n order -> Forall (fun i => i < n)%nat order.
Proof.
  intros Hperm. apply Forall_forall. intros i Hi.
  rewrite Hperm in Hi. apply elem_of_seq in Hi. lia.
Qed.

Lemma sample_table kind fn values time_limit order :
  completion_order (length values) order ->
  Forall (fun v => handled kind (Worker.outcome (fn v)) = true) values ->
  run_with kind fn values time_limit order fresh =
    (Ok (mk_frame values (expected fn values)),
     mk_world
       (call_events kind (pool_desc kind) values (loop_events fn values order))
       ((fun v => Finished (fn v)) <$> values)).
Proof.
  intros Hperm Hc.
  rewrite sample_run by eauto using completion_order_in_range.
  by rewrite fill_complete by (done || by rewrite length_replicate).
Qed.

(** *** [slow_square] *)

Lemma slow_square_same x : MultiProcessing.slow_square x = Threading.slow_square x.
Proof. reflexivity. Qed.

Lemma slow_square_int x :
  Threading.slow_square (PyInt x) =
    if (x <? 6 - Worker.sleep_max) || (6 + Worker.sleep_max <? x)
    then (0, Raised (mk_exc OverflowError
                       "timestamp too large to convert to C _PyTime_t"))
    else if x <=? 6 then (6 - x, Ok (PyInt (x * x)))
    else (0, Raised (mk_exc ValueError "sleep length must be non-negative")).
Proof.
  unfold Threading.slow_square, Worker.bind, Worker.lift, Worker.time_sleep. simpl.
  destruct (Z.ltb_spec x (6 - Worker.sleep_max)),
           (Z.ltb_spec (6 + Worker.sleep_max) x),
           (Z.ltb_spec (6 - x) (- Worker.sleep_max)),
           (Z.ltb_spec Worker.sleep_max (6 - x)); try lia; simpl; try done.
  destruct (Z.leb_spec x 6), (Z.ltb_spec (6 - x) 0); try lia; simpl; [|done].
  f_equal. lia.
Qed.

Lemma slow_square_handled kind x :
  handled kind (Worker.outcome (Threading.slow_square x)) = true.
Proof.
  destruct x as [|x].
  - by destruct kind.
  - rewrite slow_square_int.
    by destruct kind, ((x <? 6 - Worker.sleep_max) || (6 + Worker.sleep_max <? x)),
                (x <=? 6).
Qed.

Lemma slow_square_all_handled kind values :
  Forall (fun v => handled kind (Worker.outcome (Threading.slow_square v)) = true) values.
Proof. apply Forall_forall. intros v _. apply slow_square_handled. Qed.



Lemma run_sample_with kind values time_limit order :
  run_sample kind values time_limit order =
    run_with kind Threading.slow_square values time_limit order.
Proof. by destruct kind. Qed.

Lemma run_sample_table kind values time_limit order :
  completion_order (length values) order ->
  run_sample kind values time_limit order fresh =
    (Ok (mk_frame values (expected Threading.slow_square values)),
     mk_world
       (call_events kind (pool_desc kind) values
          (loop_events Threading.slow_square values order))
       ((fun v => Finished (Threading.slow_square v)) <$> values)).
Proof.
  intros Hperm. rewrite run_sample_with.
  apply sample_table; [done|apply slow_square_all_handled].
Qed.

(** *** What the log of a call holds *)

Lemma elem_of_submit_events ev first values :
  ev ∈ submit_events first values -> exists future arg, ev = Submitted future arg.
Proof.
  unfold submit_events. intros (future & arg & -> & _)%elem_of_zip_with. eauto.
Qed.

Lemma elem_of_loop_events fn values order ev :
  ev ∈ loop_events fn values order ->
  exists i v, i ∈ order /\ values !! i = Some v /\
              ev ∈ task_events i (Worker.outcome (fn v)).
Proof.
  unfold loop_events. intros (i & Hev & Hi)%list_elem_of_bind.
  destruct (values !! i) as [v|] eqn:Hv; [eauto|by apply elem_of_nil in Hev].
Qed.

Lemma elem_of_call_events kind desc values loop ev :
  ev ∈ call_events kind desc values loop ->
  ev = PoolCreated kind 5 \/ (exists future arg, ev = Submitted future arg) \/
  ev = PbarCreated (length values) desc \/ ev ∈ loop \/
  ev = PbarClosed \/ ev = PoolShutdown.
Proof.
  unfold call_events. rewrite !elem_of_app, !elem_of_cons, !elem_of_nil.
  intros [[?|[]]|[?%elem_of_submit_events|[[?|[]]|[?|[?|[?|[]]]]]]]; eauto 10.
Qed.


Lemma printed_in_call kind desc fn values order line :
  Printed line ∈ call_events kind desc values (loop_events fn values order) ->
  exists i v e, values !! i = Some v /\ Worker.outcome (fn v) = Raised e /\
                line = failure_line i e.
Proof.
  intros [?|[(? & ? & ?)|[?|[Hin|[?|?]]]]]%elem_of_call_events; try done.
  apply elem_of_loop_events in Hin as (j & v & Hj & Hv & Hin).
  destruct (Worker.outcome (fn v)) as [val|e] eqn:Hr; simpl in Hin;
    rewrite !elem_of_cons, elem_of_nil in Hin.
  - by destruct Hin as [Heq|[Heq|[]]].
  - destruct Hin as [Heq|[Heq|[Heq|[]]]]; [|done|done].
    inversion Heq; subst. eauto 10.
Qed.

Lemma writes_app tr1 tr2 : writes (tr1 ++ tr2) = writes tr1 ++ writes tr2.
Proof. apply omap_app. Qed.

Lemma writes_submit_events first values : writes (submit_events first values) = [].
Proof.
  unfold submit_events. generalize (seq first (length values)) as idxs.
  induction values as [|v values IH]; intros [|i idxs]; simpl; auto.
Qed.




(** ** The result table *)










(** *** Telling the two reports apart *)

Lemma append_nonempty (a b : string) : b <> "" -> a +:+ b <> "".
Proof. destruct a; [done|]. intros _. discriminate. Qed.

Lemma last_ascii_app (a b : string) :
  b <> "" -> last_ascii (a +:+ b) = last_ascii b.
Proof.
  intros Hb. induction a as [|c a IH]; [done|].
  change (String c a +:+ b) with (String c (a +:+ b)).
  pose proof (append_nonempty a b Hb) as Hab.
  simpl. destruct (a +:+ b); [done|]. exact IH.
Qed.

Lemma last_ascii_timeout_line idx time_limit :
  last_ascii (timeout_line idx time_limit) = Some ")"%char.
Proof.
  unfold timeout_line.
  rewrite !last_ascii_app; [done|done|..]; repeat apply append_nonempty; done.
Qed.

Lemma slow_square_raises v e :
  Worker.outcome (Threading.slow_square v) = Raised e ->
  e = mk_exc ValueError "sleep length must be non-negative" \/
  e = unsupported "-" (PyInt 6) PyNone \/
  e = mk_exc OverflowError "timestamp too large to convert to C _PyTime_t".
Proof.
  destruct v as [|x].
  - intros [= <-]. right. by left.
  - rewrite slow_square_int.
    destruct ((x <? 6 - Worker.sleep_max) || (6 + Worker.sleep_max <? x)).
    + intros [= <-]. right. by right.
    + destruct (x <=? 6); intros [= <-]. by left.
Qed.

Lemma slow_square_report_not_timeout i v e idx time_limit :
  Worker.outcome (Threading.slow_square v) = Raised e ->
  failure_line i e <> timeout_line idx time_limit.
Proof.
  intros He Heq. apply (f_equal last_ascii) in Heq.
  rewrite last_ascii_timeout_line in Heq. unfold failure_line in Heq.
  rewrite !last_ascii_app in Heq.
  - by destruct (slow_square_raises v e He) as [-> | [-> | ->]].
  - by destruct (slow_square_raises v e He) as [-> | [-> | ->]].
  - apply append_nonempty. by destruct (slow_square_raises v e He) as [-> | [-> | ->]].
  - repeat apply append_nonempty. by destruct (slow_square_raises v e He) as [-> | [-> | ->]].
Qed.

(** ** The time limit of [run_in_threads] *)

(** C8.  In [run_in_threads] the [except TimeoutError] clause never runs:
    [as_completed] hands over finished futures only, [future.result] on
    such a future returns the outcome of [slow_square] whatever the
    timeout, and that outcome is never a [TimeoutError]; the report of the
    clause is never printed.  The call, its table and its log, is the same
    for every [time_limit]. *)
Theorem timeout_clause_never_runs (values : list pyval) (time_limit : Z)
    (order : list nat) :
  completion_order (length values) order ->
  (forall future v limit w,
     futures w !! future = Some (Finished (Threading.slow_square v)) ->
     Future_result future limit w = (Worker.outcome (Threading.slow_square v), w) /\
     forall e, Worker.outcome (Threading.slow_square v) = Raised e ->
               is_TimeoutError e = false) /\
  (forall idx limit,
     Printed (timeout_line idx limit)
       ∉ trace (snd (Threading.run_in_threads values time_limit order fresh))) /\
  (forall other_limit,
     Threading.run_in_threads values other_limit order fresh =
       Threading.run_in_threads values time_limit order fresh).
Proof.
  intros Hperm. split; [|split].
  - intros future v limit w Hf. unfold Future_result. rewrite Hf.
    split; [done|].
    intros e He. by destruct (slow_square_raises v e He) as [-> | [-> | ->]].
  - intros idx limit Hin.
    pose proof (run_sample_table ThreadPool values time_limit order Hperm) as Hrun.
    simpl in Hrun. rewrite Hrun in Hin. simpl in Hin.
    apply printed_in_call in Hin as (i & v & e & _ & He & Heq).
    symmetry in Heq. exact (slow_square_report_not_timeout i v e idx limit He Heq).
  - intros other_limit.
    pose proof (run_sample_table ThreadPool values time_limit order Hperm) as H1.
    pose proof (run_sample_table ThreadPool values other_limit order Hperm) as H2.
    simpl in H1, H2. by rewrite H1, H2.
Qed.

Lemma timeout_clause_never_runs_witness :
  completion_order 5 [4; 3; 2; 1; 0]%nat /\
  (forall idx limit,
     Printed (timeout_line idx limit)
       ∉ trace (snd (Threading.run_in_threads (ints [1; 2; 3; 4; 5]) 3
                       [4; 3; 2; 1; 0]%nat fresh))) /\
  (forall other_limit,
     Threading.run_in_threads (ints [1; 2; 3; 4; 5]) other_limit [4; 3; 2; 1; 0]%nat fresh =
       Threading.run_in_threads (ints [1; 2; 3; 4; 5]) 3 [4; 3; 2; 1; 0]%nat fresh).
Proof.
  assert (completion_order 5 [4; 3; 2; 1; 0]%nat) as Hperm
    by (apply (bool_decide_unpack _); vm_compute; reflexivity).
  split; [exact Hperm|].
  exact (proj2 (timeout_clause_never_runs (ints [1; 2; 3; 4; 5]) 3
                  [4; 3; 2; 1; 0]%nat Hperm)).
Defined.

(** ** Releasing the pool and the progress bar *)

Lemma extends_refl w : extends w w.
Proof. exists []. split; [by rewrite app_nil_r|constructor]. Qed.

Lemma extends_trans w1 w2 w3 : extends w1 w2 -> extends w2 w3 -> extends w1 w3.
Proof.
  intros (e1 & H1 & F1) (e2 & H2 & F2). exists (e1 ++ e2). split.
  - by rewrite H2, H1, app_assoc.
  - by apply Forall_app.
Qed.

Lemma extends_emit ev w :
  closing ev = false -> extends w (mk_world (trace w ++ [ev]) (futures w)).
Proof. intros Hev. exists [ev]. split; [done|by constructor]. Qed.

Lemma extends_futures w fs : extends w (mk_world (trace w) fs).
Proof. exists []. split; [by rewrite app_nil_r|constructor]. Qed.

Ltac extends_step :=
  lazymatch goal with
  | |- extends ?w ?w => apply extends_refl
  | |- extends ?w (mk_world (trace ?w) _) => apply extends_futures
  | |- extends ?w (mk_world (?tr ++ [?ev]) ?fs) =>
      apply (extends_trans w (mk_world tr fs));
      [|by apply (extends_emit ev (mk_world tr fs))]
  end.

Lemma Future_result_extends future timeout w :
  extends w (snd (Future_result future timeout w)).
Proof.
  unfold Future_result. repeat case_match; simpl; repeat extends_step.
Qed.

Lemma list_setitem_extends l idx v w :
  extends w (snd (list_setitem l idx v w)).
Proof.
  unfold list_setitem, bind, emit, ret, raise. case_decide; simpl; repeat extends_step.
Qed.

Lemma threads_body_extends d time_limit future loc w :
  extends w (snd (Threading.loop_body d time_limit future loc w)).
Proof.
  unfold Threading.loop_body, bind at 1, dict_getitem.
  destruct (d !! future) as [idx|]; [|apply extends_refl].
  unfold ret at 1. unfold bind at 1, try_except, bind at 1.
  pose proof (Future_result_extends future (Some time_limit) w) as HF.
  destruct (Future_result future (Some time_limit) w) as [[val|e] w1]; simpl in HF.
  - unfold ret at 1, bind at 1, load_local, ret at 1, bind at 1.
    pose proof (list_setitem_extends (Threading.results loc) idx val w1) as HS.
    destruct (list_setitem (Threading.results loc) idx val w1) as [[l|e] w2];
      simpl in HS; [|by eapply extends_trans].
    unfold bind, pbar_update, emit, ret. simpl.
    eapply extends_trans; [exact HF|]. eapply extends_trans; [exact HS|].
    by apply extends_emit.
  - simpl. destruct (is_TimeoutError e).
    + unfold bind at 1, print, emit at 1, ret at 1, bind at 1, load_local.
      assert (extends w (mk_world (trace w1 ++ [Printed (timeout_line idx time_limit)])
                           (futures w1))) as HP.
      { eapply extends_trans; [exact HF|]. by apply extends_emit. }
      fold (timeout_line idx time_limit).
      destruct (Threading.result loc) as [prev|]; [|exact HP].
      unfold ret at 1, bind at 1.
      match goal with |- context [list_setitem ?l ?i ?x ?ww] =>
        pose proof (list_setitem_extends l i x ww) as HS;
        destruct (list_setitem l i x ww) as [[l'|e'] w2] end;
        simpl in HS; [|by eapply extends_trans].
      unfold bind, pbar_update, emit, ret. simpl.
      eapply extends_trans; [exact HP|]. eapply extends_trans; [exact HS|].
      by apply extends_emit.
    + destruct (is_Exception e); [|exact HF].
      unfold bind at 1, print, emit at 1, ret at 1, bind at 1, load_local.
      assert (extends w (mk_world (trace w1 ++ [Printed (failure_line idx e)])
                           (futures w1))) as HP.
      { eapply extends_trans; [exact HF|]. by apply extends_emit. }
      fold (failure_line idx e).
      unfold ret at 1, bind at 1.
      match goal with |- context [list_setitem ?l ?i ?x ?ww] =>
        pose proof (list_setitem_extends l i x ww) as HS;
        destruct (list_setitem l i x ww) as [[l'|e'] w2] end;
        simpl in HS; [|by eapply extends_trans].
      unfold bind, pbar_update, emit, ret. simpl.
      eapply extends_trans; [exact HP|]. eapply extends_trans; [exact HS|].
      by apply extends_emit.
Qed.

Lemma processes_body_extends d future results w :
  extends w (snd (MultiProcessing.loop_body d future results w)).
Proof.
  unfold MultiProcessing.loop_body, bind at 1, dict_getitem.
  destruct (d !! future) as [idx|]; [|apply extends_refl].
  unfold ret at 1. unfold bind at 1, try_except.
  pose proof (Future_result_extends future None w) as HF.
  destruct (Future_result future None w) as [[val|e] w1]; simpl in HF.
  - unfold bind at 1.
    pose proof (list_setitem_extends results idx val w1) as HS.
    destruct (list_setitem results idx val w1) as [[l|e] w2];
      simpl in HS; [|by eapply extends_trans].
    unfold bind, pbar_update, emit, ret. simpl.
    eapply extends_trans; [exact HF|]. eapply extends_trans; [exact HS|].
    by apply extends_emit.
  - simpl. destruct (is_Exception e); [|exact HF].
    unfold bind at 1, print, emit at 1, ret at 1, bind at 1.
    assert (extends w (mk_world (trace w1 ++ [Printed (failure_line idx e)])
                         (futures w1))) as HP.
    { eapply extends_trans; [exact HF|]. by apply extends_emit. }
    fold (failure_line idx e).
    match goal with |- context [list_setitem ?l ?i ?x ?ww] =>
      pose proof (list_setitem_extends l i x ww) as HS;
      destruct (list_setitem l i x ww) as [[l'|e'] w2] end;
      simpl in HS; [|by eapply extends_trans].
    unfold bind, pbar_update, emit, ret. simpl.
    eapply extends_trans; [exact HP|]. eapply extends_trans; [exact HS|].
    by apply extends_emit.
Qed.

Lemma for_as_completed_extends {S} (body : nat -> S -> M S) :
  (forall future s w, extends w (snd (body future s w))) ->
  forall order s w, extends w (snd (for_as_completed order body s w)).
Proof.
  intros Hbody. induction order as [|future order IH]; intros s w.
  - apply extends_refl.
  - rewrite for_as_completed_cons.
    pose proof (Hbody future s (mk_world (trace w) (alter finish future (futures w))))
      as H1.
    destruct (body future s _) as [[s'|e] w1]; simpl in H1.
    + eapply extends_trans; [|apply IH]. eapply extends_trans; [|exact H1].
      apply extends_futures.
    + eapply extends_trans; [|exact H1]. apply extends_futures.
Qed.

Lemma pd_DataFrame_world values results w :
  snd (pd_DataFrame values results w) = w.
Proof. unfold pd_DataFrame. by case_decide. Qed.

(** The shape of every call, whatever is submitted and however the loop
    ends. *)
Lemma call_shape kind fn values time_limit order :
  exists loop,
    trace (snd (run_with kind fn values time_limit order fresh)) =
      call_events kind (pool_desc kind) values loop /\
    Forall (fun ev => closing ev = false) loop.
Proof.
  destruct kind; simpl.
  - unfold Threading.run_in_threads_with, with_executor, enumerate.
    unfold bind at 1. unfold bind at 1. unfold emit at 1. simpl.
    unfold try_finally at 1. unfold bind at 1.
    rewrite submit_each_run by done. simpl.
    unfold bind at 1. unfold tqdm, emit at 1. simpl.
    unfold try_finally.
    match goal with |- context [for_as_completed ?o ?b ?s ?w] =>
      pose proof (for_as_completed_extends b
                    (threads_body_extends _ time_limit) o s w) as (loop & Htr & Hloop);
      destruct (for_as_completed o b s w) as [[loc|e] w1] end;
      simpl in Htr; exists loop; (split; [|done]); simpl;
      rewrite ?pd_DataFrame_world; simpl; rewrite Htr;
      unfold call_events; simpl; by rewrite <- !app_assoc.
  - unfold MultiProcessing.run_in_processes_with, with_executor, enumerate.
    unfold bind at 1. unfold bind at 1. unfold emit at 1. simpl.
    unfold try_finally at 1. unfold bind at 1.
    rewrite submit_each_run by done. simpl.
    unfold bind at 1. unfold tqdm, emit at 1. simpl.
    unfold try_finally.
    match goal with |- context [for_as_completed ?o ?b ?s ?w] =>
      pose proof (for_as_completed_extends b
                    (processes_body_extends _) o s w) as (loop & Htr & Hloop);
      destruct (for_as_completed o b s w) as [[loc|e] w1] end;
      simpl in Htr; exists loop; (split; [|done]); simpl;
      rewrite ?pd_DataFrame_world; simpl; rewrite Htr;
      unfold call_events; simpl; by rewrite <- !app_assoc.
Qed.

Lemma with_executor_finished {A} kind max_workers (body : M A) w :
  Forall (fun f => is_finished f = true)
    (futures (snd (with_executor kind max_workers body w))).
Proof.
  unfold with_executor, bind, emit, try_finally, shutdown. simpl.
  destruct (body _) as [r w']. simpl. by apply Forall_fmap, Forall_true.
Qed.

Lemma bind_pd_DataFrame_world {A} (m : M A) values (f : A -> list pyval) w :
  snd (bind m (fun a => pd_DataFrame values (f a)) w) = snd (m w).
Proof.
  unfold bind. destruct (m w) as [[a|e] w']; [|done]. apply pd_DataFrame_world.
Qed.

Lemma call_finished kind fn values time_limit order :
  Forall (fun f => is_finished f = true)
    (futures (snd (run_with kind fn values time_limit order fresh))).
Proof.
  destruct kind; simpl.
  - unfold Threading.run_in_threads_with.
    rewrite (bind_pd_DataFrame_world _ values Threading.results).
    apply with_executor_finished.
  - unfold MultiProcessing.run_in_processes_with.
    rewrite (bind_pd_DataFrame_world _ values (fun r => r)).
    apply with_executor_finished.
Qed.

(** C7.  On every exit path of either sample, whatever function is
    submitted, in whatever order the workers finish, and whether the call
    returns a table or an exception leaves it, the pool that was created
    and the progress bar that was created are released before control
    leaves the call: the last two things the call does are closing the
    bar and shutting the pool down, nothing was released before, and every
    future of the pool has finished. *)
Theorem released_on_every_exit (kind : pool_kind)
    (fn : pyval -> Worker.task pyval) (values : list pyval) (time_limit : Z)
    (order : list nat) :
  exists before,
    trace (snd (run_with kind fn values time_limit order fresh)) =
      before ++ [PbarClosed; PoolShutdown] /\
    PoolCreated kind 5 ∈ before /\
    PbarCreated (length values) (pool_desc kind) ∈ before /\
    Forall (fun ev => closing ev = false) before /\
    Forall (fun f => is_finished f = true)
      (futures (snd (run_with kind fn values time_limit order fresh))).
Proof.
  destruct (call_shape kind fn values time_limit order) as (loop & Htr & Hloop).
  exists ([PoolCreated kind 5] ++ submit_events 0 values
            ++ [PbarCreated (length values) (pool_desc kind)] ++ loop).
  split; [|split; [|split; [|split]]].
  - rewrite Htr. unfold call_events. by rewrite <- !app_assoc.
  - apply elem_of_app. left. by apply list_elem_of_singleton.
  - rewrite !elem_of_app. right. right. left. by apply list_elem_of_singleton.
  - rewrite !Forall_app. split; [by repeat constructor|]. split.
    + apply Forall_forall. by intros ev (? & ? & ->)%elem_of_submit_events.
    + split; [by repeat constructor|done].
  - apply call_finished.
Qed.

(** ** Failures of single tasks *)




(** The example of C2: inputs [1,2,3,4,5] with a [RuntimeError] forced on
    input 3 give outputs [1,4,None,16,25], in both samples. *)
Example forced_failure_outputs :
  fst (run_with ThreadPool (failing_on 3 (mk_exc RuntimeError "forced"))
         (ints [1; 2; 3; 4; 5]) 3 [4; 3; 2; 1; 0]%nat fresh) =
    Ok (mk_frame (ints [1; 2; 3; 4; 5])
          [PyInt 1; PyInt 4; PyNone; PyInt 16; PyInt 25]) /\
  fst (run_with ProcessPool (failing_on 3 (mk_exc RuntimeError "forced"))
         (ints [1; 2; 3; 4; 5]) 3 [4; 3; 2; 1; 0]%nat fresh) =
    Ok (mk_frame (ints [1; 2; 3; 4; 5])
          [PyInt 1; PyInt 4; PyNone; PyInt 16; PyInt 25]).
Proof. split; vm_compute; reflexivity. Qed.


(** What the [except TimeoutError] clause of [run_in_threads] does when it
    does run, on a [TimeoutError] the submitted function raises itself: it
    assigns nothing to [result], so the slot receives the value of the
    previous iteration, or the read of [result] fails when there is none. *)
Example timeout_clause_keeps_stale_result :
  let fn := failing_on 3 (mk_exc TimeoutError "timed out") in
  fst (run_with ThreadPool fn (ints [1; 2; 3; 4; 5]) 3 [4; 3; 2; 1; 0]%nat fresh) =
    Ok (mk_frame (ints [1; 2; 3; 4; 5])
          [PyInt 1; PyInt 4; PyInt 16; PyInt 16; PyInt 25]) /\
  fst (run_with ThreadPool fn (ints [1; 2; 3; 4; 5]) 3 [2; 4; 3; 1; 0]%nat fresh) =
    Raised (mk_exc UnboundLocalError
      "cannot access local variable 'result' where it is not associated with a value") /\
  fst (run_with ProcessPool fn (ints [1; 2; 3; 4; 5]) 3 [4; 3; 2; 1; 0]%nat fresh) =
    Ok (mk_frame (ints [1; 2; 3; 4; 5])
          [PyInt 1; PyInt 4; PyNone; PyInt 16; PyInt 25]).
Proof. repeat split; vm_compute; reflexivity. Qed.

(** C3 on the sample's own [__main__]: inputs [1,2,3,4,5] with
    [time_limit=3].  The tasks of inputs 1 and 2 sleep 5 and 4 seconds,
    longer than the limit, yet their slots hold 1 and 4 and nothing is
    printed. *)
Theorem slow_tasks_are_not_timed_out :
  let call := Threading.run_in_threads (ints [1; 2; 3; 4; 5]) 3 [4; 3; 2; 1; 0]%nat fresh in
  Worker.elapsed (Threading.slow_square (PyInt 1)) = 5 /\
  Worker.elapsed (Threading.slow_square (PyInt 2)) = 4 /\
  fst call = Ok (mk_frame (ints [1; 2; 3; 4; 5])
                   [PyInt 1; PyInt 4; PyInt 9; PyInt 16; PyInt 25]) /\
  printed (trace (snd call)) = [].
Proof. repeat split; vm_compute; reflexivity. Qed.

(** ** The empty input *)

(** C5 as stated fails: on the empty input both samples still create the
    pool and shut it down. *)
Lemma empty_input_still_uses_the_pool :
  existsb pool_event (trace (snd (Threading.run_in_threads [] 3 [] fresh))) = true /\
  existsb pool_event (trace (snd (MultiProcessing.run_in_processes [] [] fresh))) = true.
Proof. split; reflexivity. Qed.

(** C5, as the code has it.  On the empty input either sample returns
    the table of no rows; it creates the pool and the progress bar and
    closes both, submits nothing and runs no iteration. *)
Theorem empty_input_empty_table (kind : pool_kind) (time_limit : Z) :
  run_sample kind [] time_limit [] fresh =
    (Ok (mk_frame [] []),
     mk_world [PoolCreated kind 5; PbarCreated 0 (pool_desc kind);
               PbarClosed; PoolShutdown] []) /\
  rows (mk_frame [] []) = [].
Proof. by destruct kind. Qed.

(** ** The marker *)






(** A sleep too long for the clock is a failure like any other: the slot
    of the input holds [None] and the failure is reported. *)
Example long_sleep_is_reported :
  let values := ints [-9999999994; 6] in
  fst (run_sample ThreadPool values 3 [0; 1]%nat fresh) =
    Ok (mk_frame values [PyNone; PyInt 36]) /\
  printed (trace (snd (run_sample ThreadPool values 3 [0; 1]%nat fresh))) =
    ["Task 0 failed: timestamp too large to convert to C _PyTime_t"] /\
  fst (run_sample ProcessPool values 3 [0; 1]%nat fresh) =
    Ok (mk_frame values [PyNone; PyInt 36]).
Proof. repeat split; vm_compute; reflexivity. Qed.

(** * Further properties of the two samples *)

(** ** [slow_square] *)





(** ** Submitting *)

Lemma size_index_dict n : forall first (d : gmap nat nat),
  (forall i, (first <= i)%nat -> d !! i = None) ->
  size (index_dict first n d) = (n + size d)%nat.
Proof.
  induction n as [|n IH]; intros first d Hd; [done|].
  change (index_dict first (S n) d)
    with (index_dict (S first) n (<[first := first]> d)).
  rewrite IH.
  - rewrite map_size_insert_None by (apply Hd; lia). lia.
  - intros i Hi. rewrite lookup_insert_ne by lia. apply Hd. lia.
Qed.

(** X3.  The dict comprehension gives every input a future of its own,
    mapped to the index of that input: the dict has as many entries as
    there are inputs, equal inputs included, and future [i] carries the
    work of input [i]. *)
Theorem one_future_per_input (fn : pyval -> Worker.task pyval)
    (values : list pyval) :
  exists d w,
    submit_each fn (enumerate values) ∅ fresh = (Ok d, w) /\
    size d = length values /\
    (forall i, d !! i = if decide (i < length values)%nat then Some i else None) /\
    futures w = (fun v => Pending (fn v)) <$> values /\
    trace w = zip_with Submitted (seq 0 (length values)) values.
Proof.
  eexists _, _. unfold enumerate.
  split; [by apply submit_each_run|]. simpl.
  split; [|split; [|done]].
  - rewrite size_index_dict by (intros; apply lookup_empty).
    rewrite map_size_empty. lia.
  - intros i. rewrite lookup_index_dict, lookup_empty.
    repeat case_decide; (done || lia).
Qed.

(** *** A call in terms of its loop *)

Lemma run_in_threads_with_loop fn values time_limit order :
  Threading.run_in_threads_with fn values time_limit order fresh =
    match for_as_completed order
            (Threading.loop_body (index_dict 0 (length values) ∅) time_limit)
            (Threading.mk_locals (replicate (length values) PyNone) None)
            (before_loop ThreadPool fn values) with
    | (Ok loc, w) => pd_DataFrame values (Threading.results loc) (after_loop w)
    | (Raised e, w) => (Raised e, after_loop w)
    end.
Proof.
  unfold Threading.run_in_threads_with, with_executor, enumerate.
  unfold bind at 1. unfold bind at 1. unfold emit at 1. simpl.
  unfold try_finally at 1. unfold bind at 1.
  rewrite submit_each_run by done. simpl.
  unfold bind at 1. unfold tqdm, emit at 1. simpl.
  unfold try_finally, before_loop, after_loop. simpl.
  destruct (for_as_completed _ _ _ _) as [[loc|e] w]; simpl;
    by rewrite <- !app_assoc.
Qed.

Lemma run_in_processes_with_loop fn values order :
  MultiProcessing.run_in_processes_with fn values order fresh =
    match for_as_completed order
            (MultiProcessing.loop_body (index_dict 0 (length values) ∅))
            (replicate (length values) PyNone)
            (before_loop ProcessPool fn values) with
    | (Ok results, w) => pd_DataFrame values results (after_loop w)
    | (Raised e, w) => (Raised e, after_loop w)
    end.
Proof.
  unfold MultiProcessing.run_in_processes_with, with_executor, enumerate.
  unfold bind at 1. unfold bind at 1. unfold emit at 1. simpl.
  unfold try_finally at 1. unfold bind at 1.
  rewrite submit_each_run by done. simpl.
  unfold bind at 1. unfold tqdm, emit at 1. simpl.
  unfold try_finally, before_loop, after_loop. simpl.
  destruct (for_as_completed _ _ _ _) as [[loc|e] w]; simpl;
    by rewrite <- !app_assoc.
Qed.

(** *** The loops, iteration by iteration *)

Section iterations.

Variable fn : pyval -> Worker.task pyval.
Variable values : list pyval.

Local Notation d := (index_dict 0 (length values) ∅).

Lemma d_lookup i : d !! i = (fun _ => i) <$> values !! i.
Proof.
  rewrite lookup_index_dict, lookup_empty.
  destruct (values !! i) as [v|] eqn:Hv.
  - apply lookup_lt_Some in Hv. by rewrite decide_True by lia.
  - apply lookup_ge_None in Hv. by rewrite decide_False by lia.
Qed.

Lemma thread_body_step time_limit i loc w :
  work_of <$> futures w = fn <$> values ->
  length (Threading.results loc) = length values ->
  Threading.loop_body d time_limit i loc
      (mk_world (trace w) (alter finish i (futures w))) =
    (fst (thread_step fn values time_limit i loc),
     mk_world (trace w ++ snd (thread_step fn values time_limit i loc))
              (alter finish i (futures w))).
Proof.
  intros Hfs Hlen. destruct loc as [results result]. simpl in Hlen.
  unfold Threading.loop_body, thread_step, bind at 1, dict_getitem.
  rewrite d_lookup.
  destruct (values !! i) as [v|] eqn:Hv; simpl.
  2:{ unfold raise. simpl. by rewrite app_nil_r. }
  pose proof (lookup_lt_Some _ _ _ Hv) as Hi.
  unfold ret at 1. unfold bind at 1, try_except, bind at 1, Future_result. simpl.
  rewrite (future_of_value fn values (futures w) i v Hfs Hv).
  unfold list_setitem, bind, emit, pbar_update, ret, print, emit, load_local, raise.
  destruct (Worker.outcome (fn v)) as [x|e]; simpl.
  - rewrite decide_True by lia. simpl. by rewrite <- app_assoc.
  - destruct (is_TimeoutError e); simpl.
    + destruct result as [prev|]; simpl.
      * rewrite decide_True by lia. simpl. by rewrite <- !app_assoc.
      * done.
    + destruct (is_Exception e); simpl.
      * rewrite decide_True by lia. simpl. by rewrite <- !app_assoc.
      * by rewrite app_nil_r.
Qed.

Lemma process_body_step i results w :
  work_of <$> futures w = fn <$> values ->
  length results = length values ->
  MultiProcessing.loop_body d i results
      (mk_world (trace w) (alter finish i (futures w))) =
    (fst (process_step fn values i results),
     mk_world (trace w ++ snd (process_step fn values i results))
              (alter finish i (futures w))).
Proof.
  intros Hfs Hlen.
  unfold MultiProcessing.loop_body, process_step, bind at 1, dict_getitem.
  rewrite d_lookup.
  destruct (values !! i) as [v|] eqn:Hv; simpl.
  2:{ unfold raise. simpl. by rewrite app_nil_r. }
  pose proof (lookup_lt_Some _ _ _ Hv) as Hi.
  unfold ret at 1. unfold bind at 1, try_except, Future_result. simpl.
  rewrite (future_of_value fn values (futures w) i v Hfs Hv).
  unfold list_setitem, bind, emit, pbar_update, ret, print, emit, raise.
  destruct (Worker.outcome (fn v)) as [x|e]; simpl.
  - rewrite decide_True by lia. simpl. by rewrite <- app_assoc.
  - destruct (is_Exception e); simpl.
    + rewrite decide_True by lia. simpl. by rewrite <- !app_assoc.
    + by rewrite app_nil_r.
Qed.

End iterations.

Lemma for_as_completed_steps {S} (fn : pyval -> Worker.task pyval)
    (values : list pyval) (body : nat -> S -> M S)
    (step : nat -> S -> res S * list event) (I : S -> Prop) :
  (forall i s w,
     work_of <$> futures w = fn <$> values -> I s ->
     body i s (mk_world (trace w) (alter finish i (futures w))) =
       (fst (step i s),
        mk_world (trace w ++ snd (step i s)) (alter finish i (futures w)))) ->
  (forall i s s' evs, I s -> step i s = (Ok s', evs) -> I s') ->
  forall order s w,
    work_of <$> futures w = fn <$> values -> I s ->
    exists fs,
      work_of <$> fs = fn <$> values /\
      for_as_completed order body s w =
        (fst (steps step order s),
         mk_world (trace w ++ snd (steps step order s)) fs).
Proof.
  intros Hbody Hinv. induction order as [|i order IH]; intros s w Hfs Hs.
  - exists (futures w). split; [done|]. simpl. unfold ret.
    destruct w. simpl. by rewrite app_nil_r.
  - rewrite for_as_completed_cons, Hbody by done. simpl.
    destruct (step i s) as [[s'|e] evs] eqn:Hstep; simpl.
    + destruct (IH s' (mk_world (trace w ++ evs) (alter finish i (futures w))))
        as (fs & Hfs' & Hrun); simpl.
      * by rewrite work_of_alter_finish.
      * by eapply Hinv.
      * exists fs. split; [done|]. rewrite Hrun. simpl.
        destruct (steps step order s') as [r evs']. simpl. by rewrite <- app_assoc.
    + exists (alter finish i (futures w)). split; [|done].
      by rewrite work_of_alter_finish.
Qed.

Lemma thread_step_length fn values time_limit i loc loc' evs :
  length (Threading.results loc) = length values ->
  thread_step fn values time_limit i loc = (Ok loc', evs) ->
  length (Threading.results loc') = length values.
Proof.
  intros Hlen. unfold thread_step. repeat case_match; intros [= <- _]; simpl;
    by rewrite length_insert.
Qed.

Lemma process_step_length fn values i results results' evs :
  length results = length values ->
  process_step fn values i results = (Ok results', evs) ->
  length results' = length values.
Proof.
  intros Hlen. unfold process_step. repeat case_match; intros [= <- _];
    by rewrite length_insert.
Qed.

Lemma steps_invariant {S} (step : nat -> S -> res S * list event) (I : S -> Prop) :
  (forall i s s' evs, I s -> step i s = (Ok s', evs) -> I s') ->
  forall order s s' evs, I s -> steps step order s = (Ok s', evs) -> I s'.
Proof.
  intros Hinv. induction order as [|i order IH]; intros s s' evs Hs; simpl.
  - by intros [= <- _].
  - destruct (step i s) as [[s1|e] evs1] eqn:Hstep; [|done].
    destruct (steps step order s1) as [r evs2] eqn:Hsteps. intros [= -> _].
    eapply IH; [|exact Hsteps]. by eapply Hinv.
Qed.

Lemma finished_after_loop (fn : pyval -> Worker.task pyval)
    (values : list pyval) (fs : list Future) :
  work_of <$> fs = fn <$> values ->
  finish <$> fs = (fun v => Finished (fn v)) <$> values.
Proof.
  intros Hfs. apply list_eq. intros i.
  apply (f_equal (fun l => l !! i)) in Hfs. rewrite !list_lookup_fmap in Hfs.
  rewrite !list_lookup_fmap.
  destruct (fs !! i) as [f|], (values !! i) as [v|]; simplify_eq/=; [|done].
  unfold finish. by rewrite Hfs.
Qed.

(** Either call as the iterations of its loop. *)
Lemma run_in_threads_with_steps fn values time_limit order :
  Threading.run_in_threads_with fn values time_limit order fresh =
    (match fst (steps (thread_step fn values time_limit) order
                  (Threading.mk_locals (replicate (length values) PyNone) None)) with
     | Ok loc => Ok (mk_frame values (Threading.results loc))
     | Raised e => Raised e
     end,
     mk_world
       (call_events ThreadPool "Processing" values
          (snd (steps (thread_step fn values time_limit) order
                  (Threading.mk_locals (replicate (length values) PyNone) None))))
       ((fun v => Finished (fn v)) <$> values)).
Proof.
  rewrite run_in_threads_with_loop.
  destruct (for_as_completed_steps fn values
              (Threading.loop_body (index_dict 0 (length values) ∅) time_limit)
              (thread_step fn values time_limit)
              (fun loc => length (Threading.results loc) = length values)
              (fun i s w Hfs Hs => thread_body_step fn values time_limit i s w Hfs Hs)
              (fun i s s' evs => thread_step_length fn values time_limit i s s' evs)
              order (Threading.mk_locals (replicate (length values) PyNone) None)
              (before_loop ThreadPool fn values))
    as (fs & Hfs & ->); simpl.
  - by rewrite <- list_fmap_compose.
  - by rewrite length_replicate.
  - destruct (steps _ order _) as [[loc|e] evs] eqn:Hsteps; simpl.
    + apply (steps_invariant _ (fun loc => length (Threading.results loc) = length values))
        in Hsteps;
        [|by intros; eapply thread_step_length|by simpl; rewrite length_replicate].
      unfold pd_DataFrame. rewrite decide_True by done. unfold ret, after_loop. simpl.
      rewrite (finished_after_loop fn values fs Hfs).
      unfold call_events. simpl. by rewrite <- !app_assoc.
    + unfold after_loop. simpl. rewrite (finished_after_loop fn values fs Hfs).
      unfold call_events. simpl. by rewrite <- !app_assoc.
Qed.

Lemma run_in_processes_with_steps fn values order :
  MultiProcessing.run_in_processes_with fn values order fresh =
    (match fst (steps (process_step fn values) order
                  (replicate (length values) PyNone)) with
     | Ok results => Ok (mk_frame values results)
     | Raised e => Raised e
     end,
     mk_world
       (call_events ProcessPool "Processing (process pool)" values
          (snd (steps (process_step fn values) order
                  (replicate (length values) PyNone))))
       ((fun v => Finished (fn v)) <$> values)).
Proof.
  rewrite run_in_processes_with_loop.
  destruct (for_as_completed_steps fn values
              (MultiProcessing.loop_body (index_dict 0 (length values) ∅))
              (process_step fn values)
              (fun results => length results = length values)
              (fun i s w Hfs Hs => process_body_step fn values i s w Hfs Hs)
              (fun i s s' evs => process_step_length fn values i s s' evs)
              order (replicate (length values) PyNone)
              (before_loop ProcessPool fn values))
    as (fs & Hfs & ->); simpl.
  - by rewrite <- list_fmap_compose.
  - by rewrite length_replicate.
  - destruct (steps _ order _) as [[results|e] evs] eqn:Hsteps; simpl.
    + apply (steps_invariant _ (fun results => length results = length values))
        in Hsteps;
        [|by intros; eapply process_step_length|by rewrite length_replicate].
      unfold pd_DataFrame. rewrite decide_True by done. unfold ret, after_loop. simpl.
      rewrite (finished_after_loop fn values fs Hfs).
      unfold call_events. simpl. by rewrite <- !app_assoc.
    + unfold after_loop. simpl. rewrite (finished_after_loop fn values fs Hfs).
      unfold call_events. simpl. by rewrite <- !app_assoc.
Qed.

(** *** Facts on the iterations *)


Lemma progress_app tr1 tr2 : progress (tr1 ++ tr2) = (progress tr1 + progress tr2)%nat.
Proof. unfold progress. by rewrite omap_app, sum_list_with_app. Qed.


Lemma progress_submit_events first values : progress (submit_events first values) = 0%nat.
Proof.
  unfold submit_events. generalize (seq first (length values)) as idxs.
  induction values as [|v values IH]; intros [|i idxs]; simpl; auto.
  exact (IH idxs).
Qed.


Lemma progress_call_events kind desc values loop :
  progress (call_events kind desc values loop) = progress loop.
Proof.
  unfold call_events. rewrite !progress_app, progress_submit_events.
  unfold progress at 1 2 4. simpl. lia.
Qed.

Lemma writes_call kind desc values loop :
  writes (call_events kind desc values loop) = writes loop.
Proof.
  unfold call_events. rewrite !writes_app, writes_submit_events.
  simpl. by rewrite app_nil_r.
Qed.


Lemma thread_step_accounts fn values time_limit :
  step_accounts (thread_step fn values time_limit).
Proof.
  intros i [results result]. unfold thread_step.
  repeat case_match; by simplify_eq/=.
Qed.

Lemma process_step_accounts fn values : step_accounts (process_step fn values).
Proof.
  intros i results. unfold process_step.
  repeat case_match; by simplify_eq/=.
Qed.

Lemma steps_accounts {S} (step : nat -> S -> res S * list event) :
  step_accounts step ->
  forall order s,
    progress (snd (steps step order s)) = length (writes (snd (steps step order s))) /\
    match fst (steps step order s) with
    | Ok _ => writes (snd (steps step order s)) = order
    | Raised _ => exists done rest, order = writes (snd (steps step order s)) ++ done :: rest
    end.
Proof.
  intros Hstep. induction order as [|i order IH]; intros s; simpl; [done|].
  pose proof (Hstep i s) as Hi.
  destruct (step i s) as [[s1|e] evs1]; destruct Hi as [Hw Hp]; simpl.
  - destruct (IH s1) as [IHp IHw].
    destruct (steps step order s1) as [[s2|e] evs2]; simpl in *.
    + rewrite progress_app, writes_app, length_app, Hw, Hp, IHp, IHw. done.
    + rewrite progress_app, writes_app, length_app, Hw, Hp, IHp.
      split; [done|]. destruct IHw as (dn & rest & Hrest).
      exists dn, rest. by rewrite Hrest at 1.
  - rewrite Hw, Hp. split; [done|]. by exists i, order.
Qed.

Lemma run_with_collected kind fn values time_limit order :
  run_with kind fn values time_limit order fresh =
    (match fst (collected kind fn values time_limit order) with
     | Ok results => Ok (mk_frame values results)
     | Raised e => Raised e
     end,
     mk_world
       (call_events kind (pool_desc kind) values
          (snd (collected kind fn values time_limit order)))
       ((fun v => Finished (fn v)) <$> values)).
Proof.
  destruct kind; simpl.
  - rewrite run_in_threads_with_steps. by destruct (steps _ _ _) as [[loc|e] evs].
  - by rewrite run_in_processes_with_steps.
Qed.

Lemma collected_accounts kind fn values time_limit order :
  progress (snd (collected kind fn values time_limit order)) =
    length (writes (snd (collected kind fn values time_limit order))) /\
  match fst (collected kind fn values time_limit order) with
  | Ok _ => writes (snd (collected kind fn values time_limit order)) = order
  | Raised _ =>
      exists i rest,
        order = writes (snd (collected kind fn values time_limit order)) ++ i :: rest
  end.
Proof.
  destruct kind; simpl.
  - pose proof (steps_accounts _ (thread_step_accounts fn values time_limit) order
                  (Threading.mk_locals (replicate (length values) PyNone) None)) as H.
    by destruct (steps _ _ _) as [[loc|e] evs].
  - apply (steps_accounts _ (process_step_accounts fn values)).
Qed.

(** ** The progress bar *)

(** X4.  In either sample, whatever is submitted and however the call
    ends, the progress bar has advanced by exactly one for each result
    stored, and results are stored for the futures in the order they
    completed, up to the iteration an exception leaves, if any. *)
Theorem bar_advances_once_per_result (kind : pool_kind)
    (fn : pyval -> Worker.task pyval) (values : list pyval) (time_limit : Z)
    (order : list nat) :
  exists stored rest,
    writes (trace (snd (run_with kind fn values time_limit order fresh))) = stored /\
    progress (trace (snd (run_with kind fn values time_limit order fresh))) =
      length stored /\
    order = stored ++ rest /\
    (rest = [] <->
     exists df, fst (run_with kind fn values time_limit order fresh) = Ok df).
Proof.
  rewrite run_with_collected. cbn [fst snd trace].
  rewrite writes_call, progress_call_events.
  destruct (collected_accounts kind fn values time_limit order) as [Hp Hw].
  destruct (fst (collected kind fn values time_limit order)) as [results|e].
  - exists order, []. rewrite Hp, Hw, app_nil_r. split; [done|]. split; [done|].
    split; [done|]. split; [eauto|done].
  - destruct Hw as (i & rest & Hrest). eexists _, (i :: rest).
    split; [done|]. split; [done|]. split; [done|].
    split; [done|]. by intros [df ?].
Qed.

(** X5.  If the call returns a table under a completion order, the bar
    has advanced exactly to the total it was created with, the number of
    inputs. *)
Theorem bar_reaches_its_total (kind : pool_kind)
    (fn : pyval -> Worker.task pyval) (values : list pyval) (time_limit : Z)
    (order : list nat) (df : DataFrame) :
  completion_order (length values) order ->
  fst (run_with kind fn values time_limit order fresh) = Ok df ->
  PbarCreated (length values) (pool_desc kind)
    ∈ trace (snd (run_with kind fn values time_limit order fresh)) /\
  progress (trace (snd (run_with kind fn values time_limit order fresh))) =
    length values.
Proof.
  intros Hperm. rewrite run_with_collected. cbn [fst snd trace].
  rewrite progress_call_events.
  destruct (collected_accounts kind fn values time_limit order) as [Hp Hw].
  destruct (fst (collected kind fn values time_limit order)) as [results|e]; [|done].
  intros _. split.
  - unfold call_events. rewrite !elem_of_app. right. right. left.
    by apply list_elem_of_singleton.
  - rewrite Hp, Hw. rewrite Hperm. by rewrite length_seq.
Qed.

Lemma bar_reaches_its_total_witness :
  let values := ints [1; 2; 7; 4; 5] in
  let order := [2; 4; 3; 1; 0]%nat in
  let call := run_with ProcessPool MultiProcessing.slow_square values 0 order fresh in
  completion_order (length values) order /\
  fst call = Ok (mk_frame values [PyInt 1; PyInt 4; PyNone; PyInt 16; PyInt 25]) /\
  PbarCreated (length values) (pool_desc ProcessPool) ∈ trace (snd call) /\
  progress (trace (snd call)) = length values.
Proof.
  intros values order call.
  assert (completion_order (length values) order) as Hperm
    by (apply (bool_decide_unpack _); vm_compute; reflexivity).
  assert (fst call = Ok (mk_frame values [PyInt 1; PyInt 4; PyNone; PyInt 16; PyInt 25]))
    as Hcall by (vm_compute; reflexivity).
  split; [exact Hperm|]. split; [exact Hcall|].
  exact (bar_reaches_its_total ProcessPool MultiProcessing.slow_square values 0
           order _ Hperm Hcall).
Defined.

(** ** Submission *)

Lemma steps_events {S} (step : nat -> S -> res S * list event) (P : event -> Prop) :
  (forall i s, Forall P (snd (step i s))) ->
  forall order s, Forall P (snd (steps step order s)).
Proof.
  intros Hstep. induction order as [|i order IH]; intros s; simpl; [constructor|].
  pose proof (Hstep i s) as Hi.
  destruct (step i s) as [[s1|e] evs1]; simpl in *; [|done].
  pose proof (IH s1) as H1. destruct (steps step order s1) as [r evs2].
  by apply Forall_app.
Qed.

Lemma collected_loop_events kind fn values time_limit order :
  Forall (fun ev => loop_event ev = true)
    (snd (collected kind fn values time_limit order)).
Proof.
  destruct kind; simpl.
  - pose proof (steps_events (thread_step fn values time_limit)
                  (fun ev => loop_event ev = true)) as H.
    specialize (H (fun i s => ltac:(unfold thread_step; repeat case_match;
                                      simpl; repeat constructor))).
    specialize (H order (Threading.mk_locals (replicate (length values) PyNone) None)).
    by destruct (steps _ _ _) as [[loc|e] evs].
  - apply steps_events. intros i s. unfold process_step.
    repeat case_match; simpl; repeat constructor.
Qed.

Lemma submissions_app tr1 tr2 :
  submissions (tr1 ++ tr2) = submissions tr1 ++ submissions tr2.
Proof. apply omap_app. Qed.

Lemma submissions_submit_events first values :
  submissions (submit_events first values) = zip (seq first (length values)) values.
Proof.
  unfold submit_events. generalize (seq first (length values)) as idxs.
  induction values as [|v values IH]; intros [|i idxs]; simpl; try done.
  f_equal. apply IH.
Qed.

Lemma submissions_loop evs :
  Forall (fun ev => loop_event ev = true) evs -> submissions evs = [].
Proof.
  induction 1 as [|ev evs Hev _ IH]; [done|]. by destruct ev.
Qed.

(** X6.  In either sample, whatever is submitted and however the call
    ends, every input is submitted exactly once, input [i] as future [i],
    in input order, and all of them before the progress bar exists and any
    result is collected. *)
Theorem every_input_submitted_first (kind : pool_kind)
    (fn : pyval -> Worker.task pyval) (values : list pyval) (time_limit : Z)
    (order : list nat) :
  submissions (trace (snd (run_with kind fn values time_limit order fresh))) =
    enumerate values /\
  take (S (length values))
       (trace (snd (run_with kind fn values time_limit order fresh))) =
    PoolCreated kind 5 :: zip_with Submitted (seq 0 (length values)) values /\
  trace (snd (run_with kind fn values time_limit order fresh)) !! S (length values) =
    Some (PbarCreated (length values) (pool_desc kind)).
Proof.
  rewrite run_with_collected. cbn [snd trace].
  pose proof (collected_loop_events kind fn values time_limit order) as Hloop.
  unfold call_events.
  assert (length (submit_events 0 values) = length values) as Hlen.
  { unfold submit_events. rewrite length_zip_with, length_seq. lia. }
  split; [|split].
  - rewrite !submissions_app, submissions_submit_events,
      (submissions_loop _ Hloop). simpl. by rewrite app_nil_r.
  - simpl. f_equal. rewrite take_app_le by lia. by rewrite take_ge by lia.
  - simpl. rewrite lookup_app_r by lia. by rewrite Hlen, Nat.sub_diag.
Qed.

(** ** Reports *)




(** ** Exceptions that leave a call *)












(** ** The [except TimeoutError] clause of [run_in_threads] *)







(** ** The time limit, whatever is submitted *)



